(** * scripts/translate.py: a command-line front end to googletrans

    The script reads [sys.argv[1]] and [sys.argv[2]], builds a
    [googletrans.Translator], calls [translate(text, dest=lang)] on it and
    prints the [.text] attribute of the answer.

    The embedding below follows the module body statement by statement in a
    reader/state/exception monad: the reader holds [sys.argv], the state is
    the part of the world a Python process can touch, and an exception that
    nothing catches ends the run.  The googletrans package is not part of
    the repository; it enters as an interface ([Googletrans]) every theorem
    quantifies over.  Standard output is the stream the interpreter set up
    when it started ([sys_stdout]): it may be missing, its encoder may
    refuse a text, and its device may refuse the bytes. *)

From Stdlib Require Import ZArith Lia.
From stdpp Require Import base option list strings gmap.

Local Open Scope Z_scope.

(** ** Python values the script handles

    A [str] is held as a [string]; where bytes matter (the codecs of the
    examples) it stands for the UTF-8 form of the text. *)

(** An exception object: the name of its class and its message.  Only
    subclasses of [Exception] are meant; those end an uncaught run with
    status 1. *)
Record exn := Exn { exc_class : string; exc_msg : string }.

(** What [list.__getitem__] raises on an index past the end. *)
Definition IndexError : exn := Exn "IndexError" "list index out of range".

(** Result of evaluating an expression or running a statement. *)
Inductive outcome (A : Type) :=
| Ok (a : A)
| Raise (e : exn).
Arguments Ok {A} a.
Arguments Raise {A} e.

(** The line terminator [print] appends (its default [end]). *)
Definition newline : string := String (Ascii.ascii_of_nat 10) EmptyString.

(** [sys.stdout], the text stream the interpreter sets up over file
    descriptor 1 when it starts, from the descriptor, the locale and
    [PYTHONIOENCODING].  [encoder] turns the characters written into bytes
    under the stream's encoding and error handler (a strict handler raises
    [UnicodeEncodeError], a replacing one loses characters).  [refusal]
    tells what the device does with bytes: [None] when it takes them,
    [Some e] when every write to it fails with [e] (no space left, reader
    gone).  The stream is block-buffered, as over a file or a pipe; a
    terminal is taken to accept what it is given. *)
Record TextIO := {
  encoder : string -> outcome string;
  refusal : option exn
}.

(** The size of the buffer of the stream ([io.DEFAULT_BUFFER_SIZE]): fewer
    bytes than this wait in the buffer until the interpreter exits. *)
Definition BUFFER_SIZE : N := 8192.

(** ** The googletrans package, as the script uses it

    [Service] is whatever stands behind the client and may change between
    two calls (the remote service, the library's session); it is opaque to
    the script. *)
Class Googletrans := {
  Service : Type;
  Translator : Type;
  Translated : Type;
  (** [Translator()] *)
  Translator_init : Service -> outcome Translator * Service;
  (** [translator.translate(text, dest=lang)] *)
  Translator_translate :
    Translator -> string -> string -> Service -> outcome Translated * Service;
  (** the [.text] attribute of the answer, a [str] *)
  Translated_text : Translated -> string
}.

Section Script.
Context `{G : Googletrans}.

(** ** The world of one process *)

(** Effects an observer outside the process can see, in the order they
    happen. *)
Inductive event :=
| Network (text dest : string) (resp : outcome Translated)
    (* a request handed to the translation client, with its answer *)
| Stdout (s : string).
    (* bytes that reached the device behind standard output *)

Record World := {
  service : Service;               (* the backend behind the client *)
  trace : list event;              (* effects so far, oldest first *)
  files : gmap string string;      (* file system: path to contents *)
  environ : gmap string string;    (* os.environ *)
  sys_stdout : option TextIO       (* sys.stdout; None: descriptor 1 closed *)
}.

Definition set_service (s : Service) (w : World) : World :=
  {| service := s; trace := trace w; files := files w;
     environ := environ w; sys_stdout := sys_stdout w |}.

Definition log (ev : event) (w : World) : World :=
  {| service := service w; trace := trace w ++ [ev]; files := files w;
     environ := environ w; sys_stdout := sys_stdout w |}.

(** ** The monad of module-level code *)

Definition M (A : Type) : Type := list string -> World -> outcome A * World.

#[local] Instance M_ret : MRet M := fun A a _ w => (Ok a, w).

#[local] Instance M_bind : MBind M := fun A B k c argv w =>
  match c argv w with
  | (Ok a, w') => k a argv w'
  | (Raise e, w') => (Raise e, w')
  end.

(** [sys.argv] *)
Definition sys_argv : M (list string) := fun argv w => (Ok argv, w).

(** [l[i]] for a list and a non-negative index. *)
Definition getitem (l : list string) (i : nat) : M string := fun _ w =>
  match l !! i with
  | Some x => (Ok x, w)
  | None => (Raise IndexError, w)
  end.

(** [Translator()] *)
Definition new_Translator : M Translator := fun _ w =>
  let '(r, s) := Translator_init (service w) in (r, set_service s w).

(** [translator.translate(text, dest=dest)] *)
Definition translate (translator : Translator) (text dest : string)
  : M Translated := fun _ w =>
  let '(r, s) := Translator_translate translator text dest (service w) in
  (r, log (Network text dest r) (set_service s w)).

(** [print(s)] for a [str].  With no [sys.stdout] the call returns at
    once.  Otherwise the characters of [s] and a newline go through the
    encoder of the stream: when it raises, [print] raises and nothing is
    written.  The bytes it gives go to the buffer; a device that takes
    bytes gets them (the trace holds what reaches the device).  With a
    device that refuses, a buffer that is filled is flushed inside the call
    and [print] raises the error of the device; fewer bytes stay in the
    buffer and [print] returns. *)
Definition print (s : string) : M unit := fun _ w =>
  match sys_stdout w with
  | None => (Ok tt, w)
  | Some out =>
      match encoder out (s +:+ newline) with
      | Raise e => (Raise e, w)
      | Ok bytes =>
          match refusal out with
          | None => (Ok tt, log (Stdout bytes) w)
          | Some e =>
              if (BUFFER_SIZE <=? N.of_nat (String.length bytes))%N
              then (Raise e, w)
              else (Ok tt, w)
          end
      end
  end.

(** ** The script *)

(**
<<
text = sys.argv[1]
lang = sys.argv[2]
translator = Translator()
print(translator.translate(text, dest=lang).text)
>>
*)
Definition translate_py : M unit :=
  text ← (argv ← sys_argv; getitem argv 1);
  lang ← (argv ← sys_argv; getitem argv 2);
  translator ← new_Translator;
  r ← translate translator text lang;
  print (Translated_text r).

(** The status of the module body: 0 when it runs to its end, 1 when an
    exception escapes it. *)
Definition exit_status {A} (r : outcome A) : Z :=
  match r with
  | Ok _ => 0
  | Raise _ => 1
  end.

(** Whether the exit of the interpreter finds bytes in the buffer of
    [sys.stdout] that the device refuses.  The buffer holds bytes exactly
    when the module body ran to its end, past [print], with a stream whose
    device did not get them. *)
Definition flush_fails {A} (r : outcome A) (w : World) : bool :=
  match r, sys_stdout w with
  | Ok _, Some out => bool_decide (is_Some (refusal out))
  | _, _ => false
  end.

(** [python translate.py args...]: [sys.argv] is the script's name followed
    by the positional arguments.  A failed flush at exit makes the status
    120. *)
Definition python (script : string) (args : list string) (w : World)
  : Z * World :=
  let '(r, w') := translate_py (script :: args) w in
  (if flush_fails r w' then 120 else exit_status r, w').

(** ** What an observer reads off a trace *)

(** The requests made to the translation client: text and destination. *)
Definition network_calls (tr : list event) : list (string * string) :=
  omap (fun ev => match ev with
                  | Network text dest _ => Some (text, dest)
                  | Stdout _ => None
                  end) tr.

(** The writes to standard output, one entry per write. *)
Definition stdout_writes (tr : list event) : list string :=
  omap (fun ev => match ev with
                  | Stdout s => Some s
                  | Network _ _ _ => None
                  end) tr.

(** What standard output holds after those writes. *)
Definition stdout_of (tr : list event) : string :=
  foldr String.append EmptyString (stdout_writes tr).

(** The events one run of the script adds to the trace it starts from. *)
Definition emitted (argv : list string) (w : World) : list event :=
  drop (length (trace w)) (trace (translate_py argv w).2).

(** What [print s] does in world [w]: its result, the world it leaves and
    the events it adds.  [print_printing] below shows that every call is
    one of these. *)
Inductive printing (s : string) (w : World)
  : outcome unit -> World -> list event -> Prop :=
| printing_no_stream :
    sys_stdout w = None ->
    printing s w (Ok tt) w []
| printing_encode_error out e :
    sys_stdout w = Some out ->
    encoder out (s +:+ newline) = Raise e ->
    printing s w (Raise e) w []
| printing_written out bytes :
    sys_stdout w = Some out ->
    encoder out (s +:+ newline) = Ok bytes ->
    refusal out = None ->
    printing s w (Ok tt) (log (Stdout bytes) w) [Stdout bytes]
| printing_refused out bytes e :
    sys_stdout w = Some out ->
    encoder out (s +:+ newline) = Ok bytes ->
    refusal out = Some e ->
    (BUFFER_SIZE ≤ N.of_nat (String.length bytes))%N ->
    printing s w (Raise e) w []
| printing_buffered out bytes e :
    sys_stdout w = Some out ->
    encoder out (s +:+ newline) = Ok bytes ->
    refusal out = Some e ->
    (N.of_nat (String.length bytes) < BUFFER_SIZE)%N ->
    printing s w (Ok tt) w [].

(** The paths through the script, each with the result, the final world
    and the events it leaves.  [run_path] below shows that every run takes
    one of them. *)
Inductive path (argv : list string) (w : World)
  : outcome unit -> World -> list event -> Prop :=
| path_index_error :
    argv !! 1%nat = None ∨ argv !! 2%nat = None ->
    path argv w (Raise IndexError) w []
| path_init_error (text lang : string) (e : exn) s :
    argv !! 1%nat = Some text -> argv !! 2%nat = Some lang ->
    Translator_init (service w) = (Raise e, s) ->
    path argv w (Raise e) (set_service s w) []
| path_translate_error text lang t s e s' :
    argv !! 1%nat = Some text -> argv !! 2%nat = Some lang ->
    Translator_init (service w) = (Ok t, s) ->
    Translator_translate t text lang s = (Raise e, s') ->
    path argv w (Raise e)
      (log (Network text lang (Raise e)) (set_service s' (set_service s w)))
      [Network text lang (Raise e)]
| path_translated text lang t s r s' o w' evs :
    argv !! 1%nat = Some text -> argv !! 2%nat = Some lang ->
    Translator_init (service w) = (Ok t, s) ->
    Translator_translate t text lang s = (Ok r, s') ->
    printing (Translated_text r)
      (log (Network text lang (Ok r)) (set_service s' (set_service s w)))
      o w' evs ->
    path argv w o w' (Network text lang (Ok r) :: evs).

End Script.
(** ** Two concrete installations of googletrans

    They give the general theorems concrete runs to be checked on. *)

(** The fields of [googletrans.models.Translated] the examples fill in. *)
Record Translation := {
  t_src : string;
  t_dest : string;
  t_origin : string;
  t_text : string
}.

Definition LANGUAGES : list string := ["en"; "es"; "fr"].

Definition phrase (text dest : string) : string :=
  if (String.eqb text "hello" && String.eqb dest "es")%bool then "hola"
  else if (String.eqb text "hello" && String.eqb dest "fr")%bool then "bonjour"
  else text.

(** A phrasebook service with a request quota: an unknown destination code
    is refused by the client before it asks the service, an exhausted quota
    is refused by the service. *)
Definition phrasebook_translate (_ : unit) (text dest : string) (quota : nat)
  : outcome Translation * nat :=
  if existsb (String.eqb dest) LANGUAGES then
    match quota with
    | O => (Raise (Exn "Exception" "Unexpected status code 429"), O)
    | S q => (Ok {| t_src := "en"; t_dest := dest; t_origin := text;
                    t_text := phrase text dest |}, q)
    end
  else (Raise (Exn "ValueError" "invalid destination language"), quota).

Definition phrasebook : Googletrans := {|
  Service := nat;
  Translator := unit;
  Translated := Translation;
  Translator_init := fun quota => (Ok tt, quota);
  Translator_translate := phrasebook_translate;
  Translated_text := t_text
|}.

(** An installation whose client cannot be built at all. *)
Definition broken_install : Googletrans := {|
  Service := unit;
  Translator := unit;
  Translated := Translation;
  Translator_init := fun s =>
    (Raise (Exn "ConnectError" "client could not be set up"), s);
  Translator_translate := fun _ text dest s =>
    (Ok {| t_src := "en"; t_dest := dest; t_origin := text;
           t_text := text |}, s);
  Translated_text := t_text
|}.

(** ** Standard output streams of the examples *)

Definition is_ascii (c : Ascii.ascii) : bool :=
  (Ascii.nat_of_ascii c <? 128)%nat.

Fixpoint all_ascii (s : string) : bool :=
  match s with
  | EmptyString => true
  | String c s' => is_ascii c && all_ascii s'
  end.

(** The [utf-8] codec: a text is written as it is held. *)
Definition utf8_encode (s : string) : outcome string := Ok s.

(** The [ascii] codec with the [strict] handler, as under
    [PYTHONIOENCODING=ascii]. *)
Definition ascii_encode (s : string) : outcome string :=
  if all_ascii s then Ok s
  else Raise (Exn "UnicodeEncodeError" "'ascii' codec can't encode character").

(** A terminal or file that takes UTF-8. *)
Definition utf8_console : TextIO :=
  {| encoder := utf8_encode; refusal := None |}.

(** The same device behind an ASCII stream. *)
Definition ascii_console : TextIO :=
  {| encoder := ascii_encode; refusal := None |}.

(** A device that takes nothing, as [/dev/full]. *)
Definition full_device : TextIO :=
  {| encoder := utf8_encode;
     refusal := Some (Exn "OSError" "[Errno 28] No space left on device") |}.

(** A process that has just started, with the given standard output:
    nothing written yet. *)
Definition boot_with `{G : Googletrans} (out : option TextIO) (s : Service)
  : World :=
  {| service := s; trace := []; files := ∅; environ := ∅;
     sys_stdout := out |}.

(** The usual start: standard output takes UTF-8. *)
Definition boot `{G : Googletrans} (s : Service) : World :=
  boot_with (Some utf8_console) s.

(** A text with a character outside ASCII. *)
Definition cafe : string := "café".

(** A text of [n] letters. *)
Fixpoint letters (n : nat) : string :=
  match n with
  | O => EmptyString
  | S n' => String (Ascii.ascii_of_nat 120) (letters n')
  end.

(** ** Running the script on examples *)

Example hello_es :
  let '(status, w) :=
    python (G := phrasebook) "translate.py" ["hello"; "es"]
      (boot (G := phrasebook) 3%nat) in
  (status, stdout_of (trace w), network_calls (trace w), service w)
  = (0, "hola" +:+ newline, [("hello", "es")], 2%nat).
Proof. reflexivity. Qed.

Example hello_missing_lang :
  python (G := phrasebook) "translate.py" ["hello"]
    (boot (G := phrasebook) 3%nat)
  = (1, boot (G := phrasebook) 3%nat).
Proof. reflexivity. Qed.

Example hello_unknown_lang :
  (translate_py (G := phrasebook) ["translate.py"; "hello"; "xx"]
     (boot (G := phrasebook) 3%nat)).1
  = Raise (Exn "ValueError" "invalid destination language").
Proof. reflexivity. Qed.

Example hello_rate_limited :
  let '(status, w) :=
    python (G := phrasebook) "translate.py" ["hello"; "es"]
      (boot (G := phrasebook) 0%nat) in
  (status, stdout_of (trace w), network_calls (trace w))
  = (1, EmptyString, [("hello", "es")]).
Proof. reflexivity. Qed.

Example hello_broken_install :
  let '(status, w) :=
    python (G := broken_install) "translate.py" ["hello"; "es"]
      (boot (G := broken_install) tt) in
  (status, stdout_of (trace w), network_calls (trace w))
  = (1, EmptyString, []).
Proof. reflexivity. Qed.

Example cafe_ascii_stdout :
  let '(status, w) :=
    python (G := phrasebook) "translate.py" [cafe; "es"]
      (boot_with (G := phrasebook) (Some ascii_console) 3%nat) in
  (status, stdout_of (trace w), network_calls (trace w))
  = (1, EmptyString, [(cafe, "es")]).
Proof. reflexivity. Qed.

Example hello_closed_stdout :
  let '(status, w) :=
    python (G := phrasebook) "translate.py" ["hello"; "es"]
      (boot_with (G := phrasebook) None 3%nat) in
  (status, stdout_of (trace w), network_calls (trace w))
  = (0, EmptyString, [("hello", "es")]).
Proof. reflexivity. Qed.

Example hello_full_device :
  let '(status, w) :=
    python (G := phrasebook) "translate.py" ["hello"; "es"]
      (boot_with (G := phrasebook) (Some full_device) 3%nat) in
  (status, stdout_of (trace w), network_calls (trace w))
  = (120, EmptyString, [("hello", "es")]).
Proof. reflexivity. Qed.

(** With the newline, 8191 bytes stay in the buffer and 8192 fill it. *)
Example letters_full_device :
  ((python (G := phrasebook) "translate.py" [letters (N.to_nat 8190); "es"]
      (boot_with (G := phrasebook) (Some full_device) 3%nat)).1,
   (python (G := phrasebook) "translate.py" [letters (N.to_nat 8191); "es"]
      (boot_with (G := phrasebook) (Some full_device) 3%nat)).1)
  = (120, 1).
Proof. vm_compute. reflexivity. Qed.

(** ** The paths through the script *)

Section Paths.
Context `{G : Googletrans}.
Implicit Types (argv args rest : list string) (w : World) (e : exn).

Ltac run_script :=
  unfold translate_py, mbind, M_bind, sys_argv, getitem, new_Translator,
    translate; simpl.

(** [sys.argv[1]] or [sys.argv[2]] does not exist. *)
Lemma run_index_error argv w :
  argv !! 1%nat = None ∨ argv !! 2%nat = None ->
  translate_py argv w = (Raise IndexError, w).
Proof.
  intros H. run_script.
  destruct (argv !! 1%nat) as [text|] eqn:H1; [|reflexivity].
  destruct H as [H|H]; [discriminate|]. now rewrite H.
Qed.

(** Both arguments are there and [Translator()] raises. *)
Lemma run_init_error argv w text lang e s :
  argv !! 1%nat = Some text -> argv !! 2%nat = Some lang ->
  Translator_init (service w) = (Raise e, s) ->
  translate_py argv w = (Raise e, set_service s w).
Proof. intros H1 H2 Hi. run_script. now rewrite H1, H2, Hi. Qed.

(** The client is built and [translate] raises. *)
Lemma run_translate_error argv w text lang t s e s' :
  argv !! 1%nat = Some text -> argv !! 2%nat = Some lang ->
  Translator_init (service w) = (Ok t, s) ->
  Translator_translate t text lang s = (Raise e, s') ->
  translate_py argv w
  = (Raise e,
     log (Network text lang (Raise e)) (set_service s' (set_service s w))).
Proof.
  intros H1 H2 Hi Ht. run_script.
  now rewrite H1, H2, Hi; simpl; rewrite Ht.
Qed.

(** The client is built and [translate] answers: what is left is the
    [print] of the text, in the world after the call. *)
Lemma run_translated argv w text lang t s r s' :
  argv !! 1%nat = Some text -> argv !! 2%nat = Some lang ->
  Translator_init (service w) = (Ok t, s) ->
  Translator_translate t text lang s = (Ok r, s') ->
  translate_py argv w
  = print (Translated_text r) argv
      (log (Network text lang (Ok r)) (set_service s' (set_service s w))).
Proof.
  intros H1 H2 Hi Ht. run_script.
  now rewrite H1, H2, Hi; simpl; rewrite Ht.
Qed.

(** Every call of [print] is one of the cases of [printing]. *)
Lemma print_printing (s : string) argv w :
  ∃ evs,
    printing s w (print s argv w).1 (print s argv w).2 evs ∧
    trace (print s argv w).2 = trace w ++ evs.
Proof.
  unfold print.
  destruct (sys_stdout w) as [out|] eqn:Ho.
  - destruct (encoder out (s +:+ newline)) as [bytes|e] eqn:He.
    + destruct (refusal out) as [e|] eqn:Hr.
      * destruct (N.leb_spec BUFFER_SIZE (N.of_nat (String.length bytes)));
          simpl; exists []; (split; [|now rewrite app_nil_r]).
        -- now apply (printing_refused s w out bytes e).
        -- now apply (printing_buffered s w out bytes e).
      * exists [Stdout bytes]. split; [|reflexivity].
        now apply (printing_written s w out bytes).
    + exists []. split; [|now rewrite app_nil_r].
      now apply (printing_encode_error s w out e).
  - exists []. split; [|now rewrite app_nil_r].
    now apply printing_no_stream.
Qed.

(** [print] touches the trace only, with at most one write. *)
Lemma printing_frame (s : string) w o w' evs :
  printing s w o w' evs ->
  service w' = service w ∧ files w' = files w ∧ environ w' = environ w ∧
  sys_stdout w' = sys_stdout w ∧ trace w' = trace w ++ evs ∧
  network_calls evs = [] ∧ (length (stdout_writes evs) ≤ 1)%nat.
Proof.
  intros []; simpl; rewrite ?app_nil_r; repeat split; auto.
Qed.

(** What [print] does is fixed by the text and the stream. *)
Lemma printing_fun (s : string) wa wb o1 o2 wa' wb' evs1 evs2 :
  printing s wa o1 wa' evs1 -> printing s wb o2 wb' evs2 ->
  sys_stdout wa = sys_stdout wb ->
  o1 = o2 ∧ evs1 = evs2.
Proof.
  intros Ha Hb Heq.
  destruct Ha as [Ho|out e Ho He|out b Ho He Hc|out b e Ho He Hc Hl
                 |out b e Ho He Hc Hl];
    destruct Hb as [Ho'|out' e' Ho' He'|out' b' Ho' He' Hc'
                   |out' b' e' Ho' He' Hc' Hl'|out' b' e' Ho' He' Hc' Hl'];
    rewrite Heq in Ho; rewrite Ho in Ho'; simplify_eq; auto;
    try (split; congruence);
    assert (b = b') by congruence; subst; lia.
Qed.

Lemma run_path argv w :
  path argv w (translate_py argv w).1 (translate_py argv w).2 (emitted argv w).
Proof.
  unfold emitted.
  destruct (argv !! 1%nat) as [text|] eqn:H1.
  2:{ rewrite (run_index_error argv w) by auto. simpl. rewrite drop_all.
      constructor; auto. }
  destruct (argv !! 2%nat) as [lang|] eqn:H2.
  2:{ rewrite (run_index_error argv w) by auto. simpl. rewrite drop_all.
      constructor; auto. }
  destruct (Translator_init (service w)) as [[t|e] s] eqn:Hi.
  2:{ rewrite (run_init_error argv w text lang e s) by assumption. simpl.
      rewrite drop_all. econstructor; eassumption. }
  destruct (Translator_translate t text lang s) as [[r|e] s'] eqn:Ht.
  - rewrite (run_translated argv w text lang t s r s') by assumption.
    destruct (print_printing (Translated_text r) argv
                (log (Network text lang (Ok r))
                   (set_service s' (set_service s w)))) as (evs & Hp & Htr).
    rewrite Htr. simpl. rewrite <- app_assoc, drop_app_length. simpl.
    econstructor; eassumption.
  - rewrite (run_translate_error argv w text lang t s e s') by assumption.
    simpl. rewrite drop_app_length. econstructor; eassumption.
Qed.

(** The trace only grows, by what the run emitted. *)
Lemma trace_run argv w :
  trace (translate_py argv w).2 = trace w ++ emitted argv w.
Proof.
  destruct (run_path argv w) as [| | |????????? H1 H2 Hi Ht Hp]; simpl;
    rewrite ?app_nil_r; try reflexivity.
  apply printing_frame in Hp as (_ & _ & _ & _ & Htr & _).
  rewrite Htr. simpl. now rewrite <- app_assoc.
Qed.

(** A run changes neither files nor environment nor the stream. *)
Lemma run_frame argv w :
  files (translate_py argv w).2 = files w ∧
  environ (translate_py argv w).2 = environ w ∧
  sys_stdout (translate_py argv w).2 = sys_stdout w.
Proof.
  destruct (run_path argv w) as [| | |????????? H1 H2 Hi Ht Hp]; simpl; auto.
  apply printing_frame in Hp as (_ & Hf & He & Ho & _). auto.
Qed.

(** Standard output after two stretches of events is the concatenation. *)
Lemma append_cons (x : Ascii.ascii) (a b : string) :
  String x a +:+ b = String x (a +:+ b).
Proof. reflexivity. Qed.

Lemma append_assoc (a b c : string) : (a +:+ b) +:+ c = a +:+ (b +:+ c).
Proof.
  induction a as [|x a IH]; [reflexivity|].
  now rewrite !append_cons, IH.
Qed.

Lemma stdout_of_app (tr1 tr2 : list event) :
  stdout_of (tr1 ++ tr2) = stdout_of tr1 +:+ stdout_of tr2.
Proof.
  unfold stdout_of, stdout_writes. rewrite omap_app, foldr_app.
  generalize (foldr String.append EmptyString
                (omap (fun ev => match ev with
                                 | Stdout s => Some s
                                 | Network _ _ _ => None
                                 end) tr2)) as tl.
  intros tl.
  induction (omap _ tr1) as [|x l IH]; cbn [foldr]; [reflexivity|].
  now rewrite IH, append_assoc.
Qed.

Lemma append_empty_r (a : string) : a +:+ EmptyString = a.
Proof.
  induction a as [|x a IH]; [reflexivity|].
  now rewrite append_cons, IH.
Qed.

(** What [python] returns, in terms of the module body. *)
Lemma python_run script args w :
  python script args w
  = (if flush_fails (translate_py (script :: args) w).1
          (translate_py (script :: args) w).2
     then 120 else exit_status (translate_py (script :: args) w).1,
     (translate_py (script :: args) w).2).
Proof. unfold python. now destruct (translate_py (script :: args) w). Qed.

(** The events of each path. *)
Lemma emitted_index_error argv w :
  argv !! 1%nat = None ∨ argv !! 2%nat = None -> emitted argv w = [].
Proof.
  intros H. unfold emitted. rewrite run_index_error by assumption.
  apply drop_all.
Qed.

Lemma emitted_init_error argv w text lang e s :
  argv !! 1%nat = Some text -> argv !! 2%nat = Some lang ->
  Translator_init (service w) = (Raise e, s) ->
  emitted argv w = [].
Proof.
  intros H1 H2 Hi. unfold emitted.
  rewrite (run_init_error argv w text lang e s) by assumption.
  apply drop_all.
Qed.

Lemma emitted_translate_error argv w text lang t s e s' :
  argv !! 1%nat = Some text -> argv !! 2%nat = Some lang ->
  Translator_init (service w) = (Ok t, s) ->
  Translator_translate t text lang s = (Raise e, s') ->
  emitted argv w = [Network text lang (Raise e)].
Proof.
  intros H1 H2 Hi Ht. unfold emitted.
  rewrite (run_translate_error argv w text lang t s e s') by assumption.
  apply drop_app_length.
Qed.

(** After an answer: the request, then what [print] adds. *)
Lemma emitted_translated argv w text lang t s r s' :
  argv !! 1%nat = Some text -> argv !! 2%nat = Some lang ->
  Translator_init (service w) = (Ok t, s) ->
  Translator_translate t text lang s = (Ok r, s') ->
  ∃ evs,
    emitted argv w = Network text lang (Ok r) :: evs ∧
    printing (Translated_text r)
      (log (Network text lang (Ok r)) (set_service s' (set_service s w)))
      (translate_py argv w).1 (translate_py argv w).2 evs.
Proof.
  intros H1 H2 Hi Ht. unfold emitted.
  rewrite (run_translated argv w text lang t s r s') by assumption.
  destruct (print_printing (Translated_text r) argv
              (log (Network text lang (Ok r))
                 (set_service s' (set_service s w)))) as (evs & Hp & Htr).
  exists evs. split; [|exact Hp].
  rewrite Htr. simpl. now rewrite <- app_assoc, drop_app_length.
Qed.

(** A run that saw an answer went on to print its text: the request is its
    first event and the rest is what [print] added, under the stream the
    run started with. *)
Lemma emitted_answer argv w text dest r :
  Network text dest (Ok r) ∈ emitted argv w ->
  ∃ w1 evs,
    sys_stdout w1 = sys_stdout w ∧
    emitted argv w = Network text dest (Ok r) :: evs ∧
    printing (Translated_text r) w1
      (translate_py argv w).1 (translate_py argv w).2 evs.
Proof.
  intros Hin.
  destruct (run_path argv w) as [| | |text' lang ? ? r' ? o w' evs ? ? ? ? Hp].
  - now apply elem_of_nil in Hin.
  - now apply elem_of_nil in Hin.
  - apply list_elem_of_singleton in Hin. discriminate.
  - assert (Hn : network_calls evs = []) by (now apply printing_frame in Hp).
    apply elem_of_cons in Hin as [Hin|Hin].
    + inversion Hin; subst. eexists _, evs. split; [|split; [reflexivity|]].
      2: exact Hp. reflexivity.
    + exfalso. destruct Hp; try (now apply elem_of_nil in Hin).
      apply list_elem_of_singleton in Hin. discriminate.
Qed.

(** A run that wrote to standard output did so after an answer, and ran
    to its end. *)
Lemma emitted_write argv w b :
  Stdout b ∈ emitted argv w ->
  (translate_py argv w).1 = Ok tt ∧
  ∃ text lang r out,
    sys_stdout w = Some out ∧ refusal out = None ∧
    encoder out (Translated_text r +:+ newline) = Ok b ∧
    emitted argv w = [Network text lang (Ok r); Stdout b].
Proof.
  intros Hin.
  destruct (run_path argv w) as [| | |text lang ? ? r ? o w' evs ? ? ? ? Hp].
  - now apply elem_of_nil in Hin.
  - now apply elem_of_nil in Hin.
  - apply list_elem_of_singleton in Hin. discriminate.
  - apply elem_of_cons in Hin as [Hin|Hin]; [discriminate|].
    destruct Hp as [|? ? ? ?|out bytes Ho He Ha|? ? ? ? ? ? ?|? ? ? ? ? ? ?];
      try (now apply elem_of_nil in Hin).
    apply list_elem_of_singleton in Hin. inversion Hin; subst.
    split; [reflexivity|]. exists text, lang, r, out. auto.
Qed.

(** At most one request and at most one write per run. *)
Lemma emitted_at_most_once argv w :
  (length (network_calls (emitted argv w)) ≤ 1)%nat ∧
  (length (stdout_writes (emitted argv w)) ≤ 1)%nat.
Proof.
  destruct (run_path argv w) as [| | |????????? H1 H2 Hi Ht Hp];
    simpl; try lia.
  apply printing_frame in Hp as (_ & _ & _ & _ & _ & Hn & Hw).
  fold (network_calls evs). fold (stdout_writes evs). rewrite Hn. simpl. lia.
Qed.

(** The script reads [sys.argv], the backend and the stream, and nothing
    else of the world. *)
Lemma run_reads_service_and_stream argv w1 w2 :
  service w1 = service w2 -> sys_stdout w1 = sys_stdout w2 ->
  (translate_py argv w1).1 = (translate_py argv w2).1 ∧
  service (translate_py argv w1).2 = service (translate_py argv w2).2 ∧
  emitted argv w1 = emitted argv w2.
Proof.
  intros Hs Ho. unfold emitted.
  destruct (argv !! 1%nat) as [text|] eqn:H1.
  2:{ rewrite !run_index_error by auto. simpl. now rewrite !drop_all. }
  destruct (argv !! 2%nat) as [lang|] eqn:H2.
  2:{ rewrite !run_index_error by auto. simpl. now rewrite !drop_all. }
  destruct (Translator_init (service w1)) as [[t|e] s] eqn:Hi.
  2:{ rewrite (run_init_error argv w1 text lang e s) by assumption.
      rewrite (run_init_error argv w2 text lang e s)
        by (rewrite <- ?Hs; assumption).
      simpl. now rewrite !drop_all. }
  destruct (Translator_translate t text lang s) as [[r|e] s'] eqn:Ht.
  - rewrite (run_translated argv w1 text lang t s r s') by assumption.
    rewrite (run_translated argv w2 text lang t s r s')
      by (rewrite <- ?Hs; assumption).
    unfold print. simpl. rewrite <- Ho.
    destruct (sys_stdout w1) as [out|]; simpl.
    + destruct (encoder out (Translated_text r +:+ newline)) as [b|e];
        simpl.
      * destruct (refusal out); simpl;
          [destruct (BUFFER_SIZE <=? N.of_nat (String.length b))%N|];
          simpl; now rewrite <- ?app_assoc, !drop_app_length.
      * now rewrite !drop_app_length.
    + now rewrite !drop_app_length.
  - rewrite (run_translate_error argv w1 text lang t s e s') by assumption.
    rewrite (run_translate_error argv w2 text lang t s e s')
      by (rewrite <- ?Hs; assumption).
    simpl. now rewrite !drop_app_length.
Qed.

End Paths.

(** ** Properties of the script *)

Section Claims.
Context `{G : Googletrans}.
Implicit Types (argv args rest : list string) (w : World) (e : exn).

(** C1.  When the script is started with a text and a language code, the
    translation call answers, and standard output is a stream whose encoder
    takes the text followed by a newline and whose device takes bytes,
    the one thing written to standard output is what the encoder gives for
    the [.text] field of the answer followed by a newline; the script
    changes nothing of the text itself. *)
Theorem prints_translated_text script text lang rest w t s r s' out bytes :
  Translator_init (service w) = (Ok t, s) ->
  Translator_translate t text lang s = (Ok r, s') ->
  sys_stdout w = Some out ->
  encoder out (Translated_text r +:+ newline) = Ok bytes ->
  refusal out = None ->
  let argv := script :: text :: lang :: rest in
  let w' := (python script (text :: lang :: rest) w).2 in
  stdout_writes (emitted argv w) = [bytes] ∧
  stdout_of (trace w') = stdout_of (trace w) +:+ bytes.
Proof.
  intros Hi Ht Ho He Ha argv w'. subst argv w'. rewrite python_run. simpl.
  rewrite trace_run, stdout_of_app.
  destruct (emitted_translated (script :: text :: lang :: rest) w
              text lang t s r s') as (evs & -> & Hp); try easy.
  assert (Hevs : evs = [Stdout bytes]).
  { destruct Hp as [Hn|o e Hs Hr|o b Hs Hr Hc|o b e Hs Hr Hc Hl
                   |o b e Hs Hr Hc Hl];
      simpl in *; simplify_eq; congruence. }
  subst evs. split; [reflexivity|]. f_equal.
  unfold stdout_of. cbn. apply append_empty_r.
Qed.

(** C2.  With no positional argument or with one, the run ends on the
    [IndexError] of [sys.argv[1]] or [sys.argv[2]], hence with a non-zero
    status, and the world is as it was: no client was built and no request
    was made. *)
Theorem missing_argument_fails script args w :
  (length args < 2)%nat ->
  (translate_py (script :: args) w).1 = Raise IndexError ∧
  (python script args w).1 ≠ 0 ∧
  (python script args w).2 = w ∧
  network_calls (emitted (script :: args) w) = [].
Proof.
  intros Hlen.
  assert (Hmiss : (script :: args) !! 1%nat = None
                  ∨ (script :: args) !! 2%nat = None).
  { destruct args as [|a [|b args]]; simpl in *; auto; lia. }
  rewrite python_run, (run_index_error _ w Hmiss),
    (emitted_index_error _ w Hmiss).
  simpl. repeat split; auto; lia.
Qed.


(** C4.  With two positional arguments or more, the first is the text and
    the second the destination code: every request of the run carries
    exactly that pair, and once the client is built the run's first event
    is the request [translate(text, dest=lang)] with the answer the client
    gives to these very strings. *)
Theorem arguments_reach_translate script args text lang w :
  args !! 0%nat = Some text -> args !! 1%nat = Some lang ->
  let argv := script :: args in
  (∀ req, req ∈ network_calls (emitted argv w) -> req = (text, lang)) ∧
  (∀ t s, Translator_init (service w) = (Ok t, s) ->
     ∃ tail,
       emitted argv w
       = Network text lang (Translator_translate t text lang s).1 :: tail ∧
       network_calls tail = []).
Proof.
  intros H1 H2 argv. subst argv.
  assert (A1 : (script :: args) !! 1%nat = Some text) by exact H1.
  assert (A2 : (script :: args) !! 2%nat = Some lang) by exact H2.
  destruct (Translator_init (service w)) as [[t|e] s] eqn:Hi.
  - destruct (Translator_translate t text lang s) as [[r|e] s'] eqn:Ht.
    + destruct (emitted_translated (script :: args) w text lang t s r s')
        as (evs & -> & Hp); try easy.
      pose proof (printing_frame _ _ _ _ _ Hp) as (_ & _ & _ & _ & _ & Hn & _).
      split.
      * intros req Hreq. simpl in Hreq. fold (network_calls evs) in Hreq.
        rewrite Hn in Hreq. now apply list_elem_of_singleton in Hreq.
      * intros t0 s0 [= <- <-]. rewrite Ht. eauto.
    + rewrite (emitted_translate_error _ w text lang t s e s') by easy.
      split.
      * intros req Hreq. now apply list_elem_of_singleton in Hreq.
      * intros t0 s0 [= <- <-]. rewrite Ht. eauto.
  - rewrite (emitted_init_error _ w text lang e s) by easy.
    split.
    + intros req Hreq. now apply elem_of_nil in Hreq.
    + intros t0 s0 [=].
Qed.

(** C5.  What a run prints is a function of the [.text] field of the answer
    it received and of the stream standard output is: two runs whose
    answers carry the same text and whose streams are the same end the same
    way and write the same bytes, whatever their arguments, their backends
    and the other fields of the answers. *)
Theorem output_is_function_of_text
    argv1 argv2 w1 w2 text1 dest1 text2 dest2 r1 r2 :
  Network text1 dest1 (Ok r1) ∈ emitted argv1 w1 ->
  Network text2 dest2 (Ok r2) ∈ emitted argv2 w2 ->
  Translated_text r1 = Translated_text r2 ->
  sys_stdout w1 = sys_stdout w2 ->
  (translate_py argv1 w1).1 = (translate_py argv2 w2).1 ∧
  stdout_writes (emitted argv1 w1) = stdout_writes (emitted argv2 w2) ∧
  stdout_of (emitted argv1 w1) = stdout_of (emitted argv2 w2).
Proof.
  intros Hin1 Hin2 Heq Hout.
  destruct (emitted_answer _ _ _ _ _ Hin1) as (wa & evs1 & Ha & -> & Hp1).
  destruct (emitted_answer _ _ _ _ _ Hin2) as (wb & evs2 & Hb & -> & Hp2).
  rewrite Heq in Hp1.
  destruct (printing_fun _ _ _ _ _ _ _ _ _ Hp1 Hp2) as [Ho Hev];
    [congruence|].
  unfold stdout_of. simpl. now rewrite Ho, Hev.
Qed.

(** C6.  The script checks neither the text nor the code.  For all strings
    [text] and [lang], the empty text and unknown codes included, a client
    that could be built is asked to translate exactly these two strings.
    A run that fails fails with an exception raised by the client, while
    building it or by the translation call on these strings, or, once the
    call has answered, with the exception [print] raises: that of the
    encoder of standard output on the text of the answer, or that of a
    device refusing a full buffer.  No exception comes from the script. *)
Theorem no_local_validation script text lang rest w :
  let argv := script :: text :: lang :: rest in
  (∀ t s, Translator_init (service w) = (Ok t, s) ->
     network_calls (emitted argv w) = [(text, lang)] ∧
     service (translate_py argv w).2
     = (Translator_translate t text lang s).2) ∧
  (∀ e, (translate_py argv w).1 = Raise e ->
     (∃ s, Translator_init (service w) = (Raise e, s)) ∨
     (∃ t s s', Translator_init (service w) = (Ok t, s) ∧
                Translator_translate t text lang s = (Raise e, s')) ∨
     (∃ t s r s' out,
        Translator_init (service w) = (Ok t, s) ∧
        Translator_translate t text lang s = (Ok r, s') ∧
        sys_stdout w = Some out ∧
        (encoder out (Translated_text r +:+ newline) = Raise e ∨
         ∃ bytes,
           encoder out (Translated_text r +:+ newline) = Ok bytes ∧
           refusal out = Some e ∧
           (BUFFER_SIZE ≤ N.of_nat (String.length bytes))%N))).
Proof.
  intros argv. subst argv.
  destruct (Translator_init (service w)) as [[t|e] s] eqn:Hi.
  - destruct (Translator_translate t text lang s) as [[r|e] s'] eqn:Ht.
    + destruct (emitted_translated (script :: text :: lang :: rest) w
                  text lang t s r s') as (evs & -> & Hp); try easy.
      pose proof (printing_frame _ _ _ _ _ Hp)
        as (Hsv & _ & _ & _ & _ & Hn & _).
      split.
      * intros t0 s0 [= <- <-]. rewrite Ht, Hsv. simpl.
        fold (network_calls evs). now rewrite Hn.
      * intros e He. right. right.
        destruct Hp as [Hs|out e' Hs Hr|out b Hs Hr Hc|out b e' Hs Hr Hc Hl
                       |out b e' Hs Hr Hc Hl];
          try discriminate; injection He as <-; exists t, s, r, s', out;
          eauto 10.
    + rewrite (emitted_translate_error _ w text lang t s e s') by easy.
      rewrite (run_translate_error _ w text lang t s e s') by easy.
      split.
      * intros t0 s0 [= <- <-]. now rewrite Ht.
      * intros e0 [= <-]. right. left. eauto.
  - rewrite (run_init_error _ w text lang e s) by easy.
    split.
    + intros t0 s0 [=].
    + intros e0 [= <-]. left. eauto.
Qed.

(** C7.  A run is one pass, the same for all arguments: read the two
    arguments (a missing one ends the run with the world as it was), build
    the client, call [translate] on the two strings, [print] the text of
    the answer in the world the call left; an exception ends the pass where
    it is raised.  So a run makes at most one request and at most one
    write, and a write is the last event of the run, with the answered
    request as the only event before it. *)
Theorem single_linear_pass argv w :
  (argv !! 1%nat = None ∨ argv !! 2%nat = None ->
     translate_py argv w = (Raise IndexError, w)) ∧
  (∀ text lang,
     argv !! 1%nat = Some text -> argv !! 2%nat = Some lang ->
     match Translator_init (service w) with
     | (Raise e, s) => translate_py argv w = (Raise e, set_service s w)
     | (Ok t, s) =>
         match Translator_translate t text lang s with
         | (Raise e, s') =>
             translate_py argv w
             = (Raise e,
                log (Network text lang (Raise e))
                  (set_service s' (set_service s w)))
         | (Ok r, s') =>
             translate_py argv w
             = print (Translated_text r) argv
                 (log (Network text lang (Ok r))
                    (set_service s' (set_service s w)))
         end
     end) ∧
  (length (network_calls (emitted argv w)) ≤ 1)%nat ∧
  (length (stdout_writes (emitted argv w)) ≤ 1)%nat ∧
  (∀ pre s post,
     emitted argv w = pre ++ Stdout s :: post ->
     ∃ text lang r, pre = [Network text lang (Ok r)] ∧ post = []).
Proof.
  destruct (emitted_at_most_once argv w) as [Hn Hw].
  split; [apply run_index_error|].
  split; [|split; [exact Hn|split; [exact Hw|]]].
  - intros text lang H1 H2.
    destruct (Translator_init (service w)) as [[t|e] s] eqn:Hi.
    + destruct (Translator_translate t text lang s) as [[r|e] s'] eqn:Ht.
      * now apply (run_translated argv w text lang t s r s').
      * now apply (run_translate_error argv w text lang t s e s').
    + now apply (run_init_error argv w text lang e s).
  - intros pre s post Heq.
    assert (Hin : Stdout s ∈ emitted argv w).
    { rewrite Heq. apply elem_of_app. right. apply list_elem_of_here. }
    destruct (emitted_write argv w s Hin)
      as (_ & text & lang & r & out & _ & _ & _ & Hem).
    rewrite Hem in Heq. exists text, lang, r.
    destruct pre as [|ev [|ev' pre]]; simpl in Heq.
    + discriminate.
    + inversion Heq; subst. auto.
    + inversion Heq as [[Hev Hev' Hnil]]. now destruct pre.
Qed.

(** C8.  A run touches the world only through the backend and the trace:
    files, environment and the stream of standard output are as before, the
    trace is the old one followed by the events of the run, which hold at
    most one request and at most one write.  Nothing a run leaves behind is
    read by the next one: outcome, events and backend state are the same
    from any world with the same backend state and the same stream. *)
Theorem effects_are_confined argv w :
  let w' := (translate_py argv w).2 in
  files w' = files w ∧ environ w' = environ w ∧
  sys_stdout w' = sys_stdout w ∧
  trace w' = trace w ++ emitted argv w ∧
  (length (network_calls (emitted argv w)) ≤ 1)%nat ∧
  (length (stdout_writes (emitted argv w)) ≤ 1)%nat ∧
  (∀ w0, service w0 = service w -> sys_stdout w0 = sys_stdout w ->
     (translate_py argv w0).1 = (translate_py argv w).1 ∧
     service (translate_py argv w0).2 = service w' ∧
     emitted argv w0 = emitted argv w).
Proof.
  intros w'. subst w'.
  destruct (run_frame argv w) as (Hf & He & Ho).
  split; [exact Hf|]. split; [exact He|]. split; [exact Ho|].
  split; [apply trace_run|].
  split; [apply emitted_at_most_once|].
  split; [apply emitted_at_most_once|].
  intros w0 Hs Hout. now apply run_reads_service_and_stream.
Qed.

(** C9.  A failing run writes nothing.  Whenever the process ends with a
    non-zero status, missing arguments and client exceptions alike, the run
    has no write and standard output holds what it held before; and any
    write of a run comes after an answered request, in a run that
    succeeds. *)
Theorem failure_prints_nothing script args w :
  ((python script args w).1 ≠ 0 ->
     stdout_writes (emitted (script :: args) w) = [] ∧
     stdout_of (trace (python script args w).2) = stdout_of (trace w)) ∧
  (∀ s, Stdout s ∈ emitted (script :: args) w ->
     (python script args w).1 = 0 ∧
     ∃ text lang r, emitted (script :: args) w
                    = [Network text lang (Ok r); Stdout s]).
Proof.
  rewrite python_run. simpl. split.
  - rewrite trace_run, stdout_of_app.
    destruct (run_frame (script :: args) w) as (_ & _ & Hout).
    unfold flush_fails. rewrite Hout.
    destruct (run_path (script :: args) w)
      as [| | |????????? H1 H2 Hi Ht Hp]; simpl; intros Hst;
      try (now rewrite append_empty_r).
    destruct Hp as [Hs|out e Hs Hr|out b Hs Hr Hc|out b e Hs Hr Hc Hl
                   |out b e Hs Hr Hc Hl];
      simpl in *; try (now rewrite append_empty_r).
    rewrite Hs, Hc in Hst. simpl in Hst. congruence.
  - intros s Hin.
    destruct (emitted_write _ w s Hin)
      as (Hok & text & lang & r & out & Ho & Ha & _ & Hem).
    destruct (run_frame (script :: args) w) as (_ & _ & Hout).
    unfold flush_fails. rewrite Hok, Hout, Ho, Ha. simpl.
    split; [reflexivity|]. eauto.
Qed.

(** C10.  Arguments after the second are not read: two invocations that
    agree on the script name and on the first two arguments have the same
    result, the same final world and the same exit status, whatever
    follows. *)
Theorem extra_arguments_ignored script text lang rest rest' w :
  translate_py (script :: text :: lang :: rest) w
  = translate_py (script :: text :: lang :: rest') w ∧
  python script (text :: lang :: rest) w
  = python script (text :: lang :: rest') w ∧
  emitted (script :: text :: lang :: rest) w
  = emitted (script :: text :: lang :: rest') w.
Proof.
  assert (H : translate_py (script :: text :: lang :: rest) w
              = translate_py (script :: text :: lang :: rest') w)
    by reflexivity.
  unfold python, emitted. now rewrite H.
Qed.

End Claims.

(** *** Concrete runs *)

Lemma prints_translated_text_witness :
  let argv := ["translate.py"; "hello"; "es"] in
  let w := boot (G := phrasebook) 3%nat in
  stdout_writes (emitted argv w) = ["hola" +:+ newline] ∧
  stdout_of (trace (python "translate.py" ["hello"; "es"] w).2)
  = "hola" +:+ newline.
Proof.
  exact (prints_translated_text (G := phrasebook) "translate.py" "hello" "es"
           [] (boot (G := phrasebook) 3%nat) tt 3%nat
           {| t_src := "en"; t_dest := "es"; t_origin := "hello";
              t_text := "hola" |} 2%nat utf8_console ("hola" +:+ newline)
           eq_refl eq_refl eq_refl eq_refl eq_refl).
Defined.

(** The call answers and nothing is written: the text has a character the
    ASCII stream cannot encode. *)
Lemma prints_translated_text_counterexample :
  let w := boot_with (G := phrasebook) (Some ascii_console) 3%nat in
  let argv := ["translate.py"; cafe; "es"] in
  let r := {| t_src := "en"; t_dest := "es"; t_origin := cafe;
              t_text := cafe |} in
  Translator_init (service w) = (Ok tt, 3%nat) ∧
  Translator_translate (Googletrans := phrasebook) tt cafe "es" 3%nat
  = (Ok r, 2%nat) ∧
  stdout_writes (emitted argv w) = [] ∧
  stdout_writes (emitted argv w)
  ≠ [Translated_text (Googletrans := phrasebook) r +:+ newline].
Proof. repeat split. intros H. vm_compute in H. discriminate. Qed.

Lemma missing_argument_fails_witness :
  let w := boot (G := phrasebook) 3%nat in
  (translate_py ["translate.py"; "hello"] w).1 = Raise IndexError ∧
  (python "translate.py" ["hello"] w).1 ≠ 0 ∧
  (python "translate.py" ["hello"] w).2 = w ∧
  network_calls (emitted ["translate.py"; "hello"] w) = [].
Proof.
  apply (missing_argument_fails (G := phrasebook) "translate.py" ["hello"]).
  simpl. lia.
Defined.



Lemma arguments_reach_translate_witness :
  let argv := ["translate.py"; "hello"; "fr"; "ignored"] in
  let w := boot (G := phrasebook) 3%nat in
  (∀ req, req ∈ network_calls (emitted argv w) -> req = ("hello", "fr")) ∧
  (∀ t s, Translator_init (service w) = (Ok t, s) ->
     ∃ tail,
       emitted argv w
       = Network "hello" "fr"
           (Translator_translate t "hello" "fr" s).1 :: tail ∧
       network_calls tail = []).
Proof.
  exact (arguments_reach_translate (G := phrasebook) "translate.py"
           ["hello"; "fr"; "ignored"] "hello" "fr"
           (boot (G := phrasebook) 3%nat) eq_refl eq_refl).
Defined.

(** Two runs with different arguments and different answers (the origin
    differs) whose answers carry the same text, on the same stream. *)
Lemma output_is_function_of_text_witness :
  let argv1 := ["translate.py"; "hello"; "es"] in
  let argv2 := ["translate.py"; "hola"; "es"; "again"] in
  let w1 := boot (G := phrasebook) 3%nat in
  let w2 := boot (G := phrasebook) 1%nat in
  (translate_py argv1 w1).1 = (translate_py argv2 w2).1 ∧
  stdout_writes (emitted argv1 w1) = stdout_writes (emitted argv2 w2) ∧
  stdout_of (emitted argv1 w1) = stdout_of (emitted argv2 w2).
Proof.
  apply (output_is_function_of_text (G := phrasebook)
           ["translate.py"; "hello"; "es"]
           ["translate.py"; "hola"; "es"; "again"]
           (boot (G := phrasebook) 3%nat) (boot (G := phrasebook) 1%nat)
           "hello" "es" "hola" "es"
           {| t_src := "en"; t_dest := "es"; t_origin := "hello";
              t_text := "hola" |}
           {| t_src := "en"; t_dest := "es"; t_origin := "hola";
              t_text := "hola" |}).
  - apply list_elem_of_here.
  - apply list_elem_of_here.
  - reflexivity.
  - reflexivity.
Defined.

(** The same arguments, the same backend and the same answer, on a UTF-8
    stream and on an ASCII stream: one run prints the text, the other
    nothing. *)
Lemma output_is_function_of_text_counterexample :
  let argv := ["translate.py"; cafe; "es"] in
  let w1 := boot_with (G := phrasebook) (Some utf8_console) 3%nat in
  let w2 := boot_with (G := phrasebook) (Some ascii_console) 3%nat in
  let r := {| t_src := "en"; t_dest := "es"; t_origin := cafe;
              t_text := cafe |} in
  Network (G := phrasebook) cafe "es" (Ok r) ∈ emitted argv w1 ∧
  Network (G := phrasebook) cafe "es" (Ok r) ∈ emitted argv w2 ∧
  stdout_of (emitted argv w1) = cafe +:+ newline ∧
  stdout_of (emitted argv w2) = EmptyString ∧
  stdout_of (emitted argv w1) ≠ stdout_of (emitted argv w2).
Proof.
  split; [apply list_elem_of_here|].
  split; [apply list_elem_of_here|].
  repeat split. intros H. vm_compute in H. discriminate.
Qed.

(** The empty text with an unknown code goes to the client, and it is the
    client that refuses. *)
Lemma no_local_validation_witness :
  let argv := ["translate.py"; EmptyString; "zz"] in
  let w := boot (G := phrasebook) 3%nat in
  let e := Exn "ValueError" "invalid destination language" in
  network_calls (emitted argv w) = [(EmptyString, "zz")] ∧
  ((∃ s, Translator_init (service w) = (Raise e, s)) ∨
   (∃ t s s',
      Translator_init (service w) = (Ok t, s) ∧
      Translator_translate t EmptyString "zz" s = (Raise e, s')) ∨
   (∃ t s r s' out,
      Translator_init (service w) = (Ok t, s) ∧
      Translator_translate t EmptyString "zz" s = (Ok r, s') ∧
      sys_stdout w = Some out ∧
      (encoder out (Translated_text r +:+ newline) = Raise e ∨
       ∃ bytes,
         encoder out (Translated_text r +:+ newline) = Ok bytes ∧
         refusal out = Some e ∧
         (BUFFER_SIZE ≤ N.of_nat (String.length bytes))%N))).
Proof.
  pose proof (no_local_validation (G := phrasebook) "translate.py"
                EmptyString "zz" [] (boot (G := phrasebook) 3%nat)) as [H1 H2].
  split.
  - exact (proj1 (H1 tt 3%nat eq_refl)).
  - exact (H2 _ eq_refl).
Defined.

(** A second invocation, started in the world the first one left, does
    what it does from a fresh world with the same backend state. *)
Lemma effects_are_confined_witness :
  let w1 := (python (G := phrasebook) "translate.py" ["hello"; "fr"]
               (boot (G := phrasebook) 3%nat)).2 in
  let w := boot (G := phrasebook) 2%nat in
  let argv := ["translate.py"; "hello"; "es"] in
  (translate_py argv w1).1 = (translate_py argv w).1 ∧
  service (translate_py argv w1).2 = service (translate_py argv w).2 ∧
  emitted argv w1 = emitted argv w.
Proof.
  exact (proj2 (proj2 (proj2 (proj2 (proj2 (proj2
           (effects_are_confined (G := phrasebook)
              ["translate.py"; "hello"; "es"]
              (boot (G := phrasebook) 2%nat)))))))
           (python (G := phrasebook) "translate.py" ["hello"; "fr"]
              (boot (G := phrasebook) 3%nat)).2 eq_refl eq_refl).
Defined.

(** The service refuses (quota used up): status 1, nothing printed. *)
Lemma failure_prints_nothing_witness :
  let w := boot (G := phrasebook) 0%nat in
  stdout_writes (emitted ["translate.py"; "hello"; "es"] w) = [] ∧
  stdout_of (trace (python "translate.py" ["hello"; "es"] w).2)
  = stdout_of (trace w).
Proof.
  apply (proj1 (failure_prints_nothing (G := phrasebook) "translate.py"
                  ["hello"; "es"] (boot (G := phrasebook) 0%nat))).
  simpl. lia.
Defined.

(** ** Further properties of the script *)

Section Further.
Context `{G : Googletrans}.
Implicit Types (argv args : list string) (w : World).



(** X1.  [sys.argv[0]] is never read: started under another name or path
    with the same arguments, the script gives the same result, the same
    final world and the same exit status. *)
Theorem script_name_ignored script script' args w :
  translate_py (script :: args) w = translate_py (script' :: args) w ∧
  python script args w = python script' args w ∧
  emitted (script :: args) w = emitted (script' :: args) w.
Proof.
  assert (H : translate_py (script :: args) w
              = translate_py (script' :: args) w) by reflexivity.
  unfold python, emitted. now rewrite H.
Qed.

(** X2.  The exit status is 0 exactly when both arguments were there, the
    one request of the run was answered and the [print] of the text went
    through: with no stream, where nothing is written, or with a stream
    whose encoder takes the text and whose device takes bytes, which are
    then the one write of the run. *)
Theorem zero_status_iff_printed script args w :
  (python script args w).1 = 0 ↔
  ∃ text lang r,
    args !! 0%nat = Some text ∧ args !! 1%nat = Some lang ∧
    ((sys_stdout w = None ∧
      emitted (script :: args) w = [Network text lang (Ok r)]) ∨
     (∃ out bytes,
        sys_stdout w = Some out ∧ refusal out = None ∧
        encoder out (Translated_text r +:+ newline) = Ok bytes ∧
        emitted (script :: args) w
        = [Network text lang (Ok r); Stdout bytes])).
Proof.
  rewrite python_run. simpl.
  destruct (run_frame (script :: args) w) as (_ & _ & Hout).
  unfold flush_fails. rewrite Hout.
  destruct (run_path (script :: args) w) as
    [H|text lang e s H1 H2 Hi|text lang t s e s' H1 H2 Hi Ht
      |text lang t s r s' o w' evs H1 H2 Hi Ht Hp]; simpl.
  - split; [discriminate|].
    intros (? & ? & ? & _ & _ & [[_ [=]]|(? & ? & _ & _ & _ & [=])]).
  - split; [discriminate|].
    intros (? & ? & ? & _ & _ & [[_ [=]]|(? & ? & _ & _ & _ & [=])]).
  - split; [discriminate|].
    intros (? & ? & ? & _ & _ & [[_ [=]]|(? & ? & _ & _ & _ & [=])]).
  - destruct Hp as [Hs|out e Hs Hr|out b Hs Hr Hc|out b e Hs Hr Hc Hl
                   |out b e Hs Hr Hc Hl];
      simpl in Hs; rewrite ?Hs; simpl; rewrite ?Hc; simpl.
    + split; [|reflexivity]. intros _. exists text, lang, r. auto.
    + split; [discriminate|].
      intros (? & ? & ? & _ & _ & [[[=] _]|(? & ? & _ & _ & _ & [=])]).
    + split; [|reflexivity]. intros _. exists text, lang, r.
      split; [exact H1|]. split; [exact H2|]. right. exists out, b. auto.
    + split; [discriminate|].
      intros (? & ? & ? & _ & _ & [[[=] _]|(? & ? & _ & _ & _ & [=])]).
    + split; [discriminate|].
      intros (? & ? & ? & _ & _ & [[[=] _]|(? & ? & _ & _ & _ & [=])]).
Qed.


(** X4.  Two invocations one after the other: the trace is the old one,
    then the events of the first run, then those of the second, started in
    the world the first left; standard output holds the two outputs in that
    order, and files and environment are still as they were. *)
Theorem two_runs_compose script1 args1 script2 args2 w :
  let w1 := (python script1 args1 w).2 in
  let w2 := (python script2 args2 w1).2 in
  let ev1 := emitted (script1 :: args1) w in
  let ev2 := emitted (script2 :: args2) w1 in
  trace w2 = trace w ++ ev1 ++ ev2 ∧
  stdout_of (trace w2)
  = stdout_of (trace w) +:+ stdout_of ev1 +:+ stdout_of ev2 ∧
  (length (network_calls (ev1 ++ ev2)) ≤ 2)%nat ∧
  files w2 = files w ∧ environ w2 = environ w.
Proof.
  intros w1 w2 ev1 ev2. subst w1 w2 ev1 ev2. rewrite !python_run. simpl.
  set (w1 := (translate_py (script1 :: args1) w).2).
  assert (Ht : trace (translate_py (script2 :: args2) w1).2
               = trace w ++ emitted (script1 :: args1) w
                   ++ emitted (script2 :: args2) w1).
  { rewrite trace_run. subst w1. now rewrite trace_run, <- app_assoc. }
  split; [exact Ht|]. split; [|split; [|split]].
  - now rewrite Ht, !stdout_of_app.
  - unfold network_calls. rewrite omap_app, length_app.
    pose proof (emitted_at_most_once (script1 :: args1) w) as [H1 _].
    pose proof (emitted_at_most_once (script2 :: args2) w1) as [H2 _].
    unfold network_calls in H1, H2. lia.
  - transitivity (files w1).
    + apply run_frame.
    + subst w1. apply run_frame.
  - transitivity (environ w1).
    + apply run_frame.
    + subst w1. apply run_frame.
Qed.

End Further.

